(** * Santa.ts: the [Cookie] record and the [Cookies] manager

    A shallow embedding of [src/Santa.ts].  JavaScript strings are
    modelled as [string] (8-bit code units), the array [this.cookies]
    as a [list Cookie] whose elements are distinct objects (every
    element is created by [new Cookie()] and pushed once), and the
    assignments to [document.cookie] as a log of written strings. *)

From Stdlib Require Import Bool List Arith Lia NArith ZArith.
From Stdlib Require Import Ascii String DecimalString.
Import ListNotations.
Open Scope string_scope.

(** ** Regular expressions

    The two regular-expression literals of [Cookies.parse] use only
    character classes, counted repetition, [+], [*], an optional
    group and the anchors [^] and [$]: a regular language.  Whether
    [String.prototype.match] returns a match or [null] is then
    membership in that language, decided here with derivatives. *)
Module Regex.

Inductive regex : Type :=
| Void : regex
| Eps : regex
| Class : (ascii -> bool) -> regex
| Seq : regex -> regex -> regex
| Alt : regex -> regex -> regex
| Star : regex -> regex.

Fixpoint nullable (r : regex) : bool :=
  match r with
  | Void => false
  | Eps => true
  | Class _ => false
  | Seq r1 r2 => nullable r1 && nullable r2
  | Alt r1 r2 => nullable r1 || nullable r2
  | Star _ => true
  end.

Fixpoint deriv (c : ascii) (r : regex) : regex :=
  match r with
  | Void => Void
  | Eps => Void
  | Class p => if p c then Eps else Void
  | Seq r1 r2 =>
      if nullable r1
      then Alt (Seq (deriv c r1) r2) (deriv c r2)
      else Seq (deriv c r1) r2
  | Alt r1 r2 => Alt (deriv c r1) (deriv c r2)
  | Star r1 => Seq (deriv c r1) (Star r1)
  end.

(** [full_match r s]: the pattern [^r$] matches [s]. *)
Fixpoint full_match (r : regex) (s : string) : bool :=
  match s with
  | EmptyString => nullable r
  | String c s' => full_match (deriv c r) s'
  end.

(** [search_to_end r s]: the pattern [r$] (no [^]) matches somewhere
    in [s], that is, some suffix of [s] is in the language of [r]. *)
Fixpoint search_to_end (r : regex) (s : string) : bool :=
  full_match r s ||
  match s with
  | EmptyString => false
  | String _ s' => search_to_end r s'
  end.

(** [x{n}] *)
Fixpoint rep (n : nat) (r : regex) : regex :=
  match n with
  | O => Eps
  | S n' => Seq r (rep n' r)
  end.

(** [x+] and [x?] *)
Definition plus (r : regex) : regex := Seq r (Star r).
Definition opt (r : regex) : regex := Alt Eps r.

(** a literal character, and a sequence of pieces *)
Definition lit (c : ascii) : regex := Class (Ascii.eqb c).
Definition seqs (rs : list regex) : regex := fold_right Seq Eps rs.

(** The denotation the matcher is checked against. *)
Inductive lang : regex -> string -> Prop :=
| L_eps : lang Eps ""
| L_class p c : p c = true -> lang (Class p) (String c "")
| L_seq r1 r2 s1 s2 : lang r1 s1 -> lang r2 s2 -> lang (Seq r1 r2) (s1 ++ s2)
| L_alt_l r1 r2 s : lang r1 s -> lang (Alt r1 r2) s
| L_alt_r r1 r2 s : lang r2 s -> lang (Alt r1 r2) s
| L_star_nil r : lang (Star r) ""
| L_star_cons r c s1 s2 :
    lang r (String c s1) -> lang (Star r) s2 ->
    lang (Star r) (String c s1 ++ s2).

End Regex.

(** ** The pieces of the JavaScript runtime that the file calls *)
Module JS.

Definition code (c : ascii) : N := N_of_ascii c.

Definition between (lo hi c : ascii) : bool :=
  (code lo <=? code c)%N && (code c <=? code hi)%N.

Definition is_digit (c : ascii) : bool := between "0" "9" c.
Definition is_lower (c : ascii) : bool := between "a" "z" c.
Definition is_upper (c : ascii) : bool := between "A" "Z" c.

(** [\d], [\w] and [\W] *)
Definition digit_char : ascii -> bool := is_digit.
Definition word_char (c : ascii) : bool :=
  is_lower c || is_upper c || is_digit c || Ascii.eqb c "_".
Definition non_word_char (c : ascii) : bool := negb (word_char c).

(** White space and line terminators below U+0100, as removed by
    [String.prototype.trim]: TAB, LF, VT, FF, CR, SP and NBSP. *)
Definition is_space (c : ascii) : bool :=
  (between "009" "013" c) || Ascii.eqb c " " || Ascii.eqb c "160".

Fixpoint trim_start (s : string) : string :=
  match s with
  | EmptyString => EmptyString
  | String c s' => if is_space c then trim_start s' else s
  end.

(** [trim_end] keeps a character when it is not white space or when
    something is left after it. *)
Fixpoint trim_end (s : string) : string :=
  match s with
  | EmptyString => EmptyString
  | String c s' =>
      match trim_end s' with
      | EmptyString => if is_space c then EmptyString else String c EmptyString
      | t => String c t
      end
  end.

Definition trim (s : string) : string := trim_end (trim_start s).

(** [s.split(sep)] for a one-character separator: never empty, the
    empty string gives one empty piece. *)
Fixpoint split (sep : ascii) (s : string) : list string :=
  match s with
  | EmptyString => [EmptyString]
  | String c s' =>
      if Ascii.eqb c sep then EmptyString :: split sep s'
      else match split sep s' with
           | [] => [String c EmptyString]
           | p :: ps => String c p :: ps
           end
  end.

(** The property key of the array index [i]: its decimal numeral. *)
Definition index_key (i : nat) : string :=
  NilEmpty.string_of_uint (Nat.to_uint i).

(** [key in arr] for a dense array of [len] elements: an index below
    [len], the own property [length], or a property found on the
    prototype chain ([Array.prototype], [Object.prototype]), which the
    host fixes. *)
Definition in_array (inherited : string -> bool) (key : string) (len : nat) : bool :=
  existsb (fun i => String.eqb key (index_key i)) (seq 0 len)
  || String.eqb key "length"
  || inherited key.

(** String-keyed properties that an array inherits in an ES2023 host. *)
Definition es2023_prototype_keys : list string :=
  [ "at"; "concat"; "constructor"; "copyWithin"; "entries"; "every";
    "fill"; "filter"; "find"; "findIndex"; "findLast"; "findLastIndex";
    "flat"; "flatMap"; "forEach"; "includes"; "indexOf"; "join"; "keys";
    "lastIndexOf"; "length"; "map"; "pop"; "push"; "reduce"; "reduceRight";
    "reverse"; "shift"; "slice"; "some"; "sort"; "splice";
    "toLocaleString"; "toReversed"; "toSorted"; "toSpliced"; "toString";
    "unshift"; "values"; "with";
    "hasOwnProperty"; "isPrototypeOf"; "propertyIsEnumerable"; "valueOf";
    "__proto__"; "__defineGetter__"; "__defineSetter__";
    "__lookupGetter__"; "__lookupSetter__" ].

Definition es2023_inherited (key : string) : bool :=
  existsb (String.eqb key) es2023_prototype_keys.

(** A [Date] object, kept as the constructor call that made it:
    [new Date(s)] for a string and [new Date(ms)] for a number.  An
    object is truthy whatever it holds. *)
Inductive Date : Type :=
| DateOfString : string -> Date
| DateOfMillis : Z -> Date.

Definition epoch : Date := DateOfMillis 0.

(** A rendering of dates for examples; [Date.prototype.toString]
    itself depends on the host's time zone. *)
Definition utc_Date_toString (d : Date) : string :=
  match d with
  | DateOfString s => s
  | DateOfMillis _ => "Thu Jan 01 1970 00:00:00 GMT+0000 (Coordinated Universal Time)"
  end.

(** Truthiness of [string | undefined] and [boolean | undefined]. *)
Definition truthy_string (o : option string) : bool :=
  match o with
  | Some s => negb (String.eqb s "")
  | None => false
  end.

Definition truthy_bool (o : option bool) : bool :=
  match o with
  | Some b => b
  | None => false
  end.

Definition string_of_bool (b : bool) : string :=
  if b then "true" else "false".

End JS.

Import Regex JS.

(** ** class Cookie *)

Record Cookie : Type := mkCookie {
  name : string;
  value : string;
  expires : option Date;
  path : option string;
  domain : option string;
  secure : option bool
}.

(** [constructor()] *)
Definition new_Cookie : Cookie :=
  {| name := ""; value := ""; expires := None;
     path := None; domain := None; secure := Some false |}.

Definition with_name (n : string) (c : Cookie) : Cookie :=
  {| name := n; value := value c; expires := expires c;
     path := path c; domain := domain c; secure := secure c |}.
Definition with_value (v : string) (c : Cookie) : Cookie :=
  {| name := name c; value := v; expires := expires c;
     path := path c; domain := domain c; secure := secure c |}.
Definition with_expires (e : option Date) (c : Cookie) : Cookie :=
  {| name := name c; value := value c; expires := e;
     path := path c; domain := domain c; secure := secure c |}.
Definition with_path (p : option string) (c : Cookie) : Cookie :=
  {| name := name c; value := value c; expires := expires c;
     path := p; domain := domain c; secure := secure c |}.
Definition with_domain (d : option string) (c : Cookie) : Cookie :=
  {| name := name c; value := value c; expires := expires c;
     path := path c; domain := d; secure := secure c |}.
Definition with_secure (b : option bool) (c : Cookie) : Cookie :=
  {| name := name c; value := value c; expires := expires c;
     path := path c; domain := domain c; secure := b |}.

(** The four optional pieces that [toString] appends, each the empty
    string when its attribute is falsy. *)
Definition expires_segment (Date_toString : Date -> string) (c : Cookie) : string :=
  match expires c with
  | Some d => "; expires=" ++ Date_toString d
  | None => ""
  end.

Definition path_segment (c : Cookie) : string :=
  if truthy_string (path c)
  then "; path=" ++ match path c with Some p => p | None => "" end
  else "".

Definition domain_segment (c : Cookie) : string :=
  if truthy_string (domain c)
  then "; domain=" ++ match domain c with Some d => d | None => "" end
  else "".

Definition secure_segment (c : Cookie) : string :=
  if truthy_bool (secure c)
  then "; secure=" ++ string_of_bool (truthy_bool (secure c))
  else "".

(** [Cookie.toString()] *)
Definition toString (Date_toString : Date -> string) (c : Cookie) : string :=
  let cookieString := name c ++ "=" ++ value c in
  let cookieString := cookieString ++ expires_segment Date_toString c in
  let cookieString := cookieString ++ path_segment c in
  let cookieString := cookieString ++ domain_segment c in
  let cookieString := cookieString ++ secure_segment c in
  cookieString.

(** ** Cookies.parse *)

(** [/\W{3}, \d{2} \w{3} \d{4} \d{2}:\d{2}:\d{2} \w+$/g] *)
Definition expires_pattern : regex :=
  seqs [ rep 3 (Class non_word_char); lit ","; lit " ";
         rep 2 (Class digit_char); lit " ";
         rep 3 (Class word_char); lit " ";
         rep 4 (Class digit_char); lit " ";
         rep 2 (Class digit_char); lit ":";
         rep 2 (Class digit_char); lit ":";
         rep 2 (Class digit_char); lit " ";
         plus (Class word_char) ].

Definition expires_matches (v : string) : bool :=
  search_to_end expires_pattern v.

(** The character class of the [path] pattern under the [i] flag:
    letters, digits and the listed punctuation. *)
Definition path_char (c : ascii) : bool :=
  is_lower c || is_upper c || is_digit c
  || existsb (Ascii.eqb c)
       (list_ascii_of_string "-._~%!$&'()*+,;=:@/").

(** The [path] pattern: [^], a slash, an optional group holding any
    number of characters of the class above, [$]. *)
Definition path_pattern : regex :=
  seqs [ lit "/"; opt (Star (Class path_char)) ].

Definition path_matches (v : string) : bool :=
  full_match path_pattern v.

(** The state of the loop: the array [Cookies] built so far and
    [currentCookie]. *)
Definition parse_state : Type := (list Cookie * Cookie)%type.

Definition part_key (part : string) : string :=
  trim (hd "" (split "=" part)).

(** [keyvalue[1] ? keyvalue[1].trim() : ''] *)
Definition part_value (part : string) : string :=
  match nth_error (split "=" part) 1 with
  | Some v => if String.eqb v "" then "" else trim v
  | None => ""
  end.

(** One iteration of [for (let part of cookieParts)]. *)
Definition parse_part (st : parse_state) (part : string) : parse_state :=
  let '(out, currentCookie) := st in
  let key := part_key part in
  let value := part_value part in
  if String.eqb key "expires" then
    (out, with_expires
            (if expires_matches value then Some (DateOfString value) else None)
            currentCookie)
  else if String.eqb key "domain" then
    (out, with_domain (Some value) currentCookie)
  else if String.eqb key "path" then
    (out, with_path (if path_matches value then Some value else None)
            currentCookie)
  else if String.eqb key "secure" then
    (out, with_secure (Some true) currentCookie)
  else if negb (String.eqb (name currentCookie) "") then
    ((out ++ [currentCookie])%list, new_Cookie)
  else
    (out, currentCookie).

Definition parse_loop (parts : list string) (st : parse_state) : parse_state :=
  fold_left parse_part parts st.

Definition parse (cookies : string) : list Cookie :=
  fst (parse_loop (split ";" cookies) ([], new_Cookie)).

(** ** class Cookies

    The manager's array together with the strings assigned to
    [document.cookie] so far, oldest first. *)
Record Cookies : Type := mkCookies {
  cookies : list Cookie;
  written : list string
}.

(** [new Cookies()] in a page whose [document.cookie] reads [raw]. *)
Definition construct (raw : string) : Cookies :=
  {| cookies := parse raw; written := [] |}.

(** [arr.find(cookie => cookie.name === name)] *)
Definition find_named (n : string) (cs : list Cookie) : option Cookie :=
  find (fun cookie => String.eqb (name cookie) n) cs.

(** Assigning fields of the object that [find] returned changes the
    first element with that name, in place. *)
Fixpoint update_named (n : string) (f : Cookie -> Cookie) (cs : list Cookie)
  : list Cookie :=
  match cs with
  | [] => []
  | c :: cs' =>
      if String.eqb (name c) n then f c :: cs'
      else c :: update_named n f cs'
  end.

(** [remove] and [clear]: [value = ''; expires = new Date(0)] *)
Definition blank (c : Cookie) : Cookie :=
  with_expires (Some epoch) (with_value "" c).

(** [set]: the five assignments to an existing cookie. *)
Definition assign (v : string) (e : option Date) (p d : option string)
           (s : option bool) (c : Cookie) : Cookie :=
  {| name := name c; value := v; expires := e; path := p; domain := d;
     secure := Some (truthy_bool s) |}.

Section Manager.

(** The host: which string keys every array inherits, and how a
    [Date] prints. *)
Variable inherited : string -> bool.
Variable Date_toString : Date -> string.

(** [has(name)]: [name in this.cookies] *)
Definition has (n : string) (m : Cookies) : bool :=
  in_array inherited n (List.length (cookies m)).

(** [get(name)] *)
Definition get (n : string) (m : Cookies) : option string :=
  if has n m then
    match find_named n (cookies m) with
    | Some cookie => Some (value cookie)
    | None => None
    end
  else None.

(** [set(name, value, expires?, path?, domain?, secure?)] *)
Definition set (n v : string) (e : option Date) (p d : option string)
           (s : option bool) (m : Cookies) : bool * Cookies :=
  if has n m then
    match find_named n (cookies m) with
    | Some cookie =>
        (true,
         {| cookies := update_named n (assign v e p d s) (cookies m);
            written := (written m
                        ++ [toString Date_toString (assign v e p d s cookie)])%list |})
    | None => (true, m)
    end
  else
    let cookie := assign v e p d s (with_name n new_Cookie) in
    (false,
     {| cookies := (cookies m ++ [cookie])%list;
        written := (written m ++ [toString Date_toString cookie])%list |}).

(** [remove(name)] *)
Definition remove (n : string) (m : Cookies) : bool * Cookies :=
  if has n m then
    match find_named n (cookies m) with
    | Some cookie =>
        (true,
         {| cookies := update_named n blank (cookies m);
            written := (written m ++ [toString Date_toString (blank cookie)])%list |})
    | None => (true, m)
    end
  else (false, m).

(** [clear()] *)
Definition clear (m : Cookies) : bool * Cookies :=
  if (0 <? List.length (cookies m))%nat then
    (true,
     {| cookies := map blank (cookies m);
        written := (written m
                    ++ map (fun cookie => toString Date_toString (blank cookie))
                           (cookies m))%list |})
  else (false, m).

(** [keys()] *)
Definition keys (m : Cookies) : list string :=
  map (fun cookie => name cookie) (cookies m).

End Manager.

(** The invariant of the data model: no stored record has an empty name. *)
Definition named (c : Cookie) : Prop := name c <> "".
Definition all_named (m : Cookies) : Prop := Forall named (cookies m).

(** The manager of a page without cookies. *)
Definition empty_manager : Cookies := construct "".

(** The serialisation as the design document words it: every attribute
    that is set contributes its segment, and a set secure flag
    contributes the bare token. *)
Definition serialize_as_specified (Date_toString : Date -> string) (c : Cookie)
  : string :=
  name c ++ "=" ++ value c
  ++ match expires c with Some d => "; expires=" ++ Date_toString d | None => "" end
  ++ match path c with Some p => "; path=" ++ p | None => "" end
  ++ match domain c with Some d => "; domain=" ++ d | None => "" end
  ++ match secure c with Some true => "; secure" | _ => "" end.

(** The record that [set(n, v)] creates. *)
Definition plain (n v : string) : Cookie :=
  {| name := n; value := v; expires := None; path := None; domain := None;
     secure := Some false |}.

(** The manager after [set('a', '1')] on an empty page. *)
Definition manager_a : Cookies :=
  {| cookies := [plain "a" "1"]; written := ["a=1"] |}.

(** The manager after [set('0', 'x')] and [set('b', 'y')]. *)
Definition manager_0b : Cookies :=
  {| cookies := [plain "0" "x"; plain "b" "y"]; written := ["0=x"; "b=y"] |}.

(** ** Sessions

    A client of the class: a manager built on a page, then any
    sequence of calls of the three mutating methods. *)
Inductive call : Type :=
| CallSet (n v : string) (e : option Date) (p d : option string) (s : option bool)
| CallRemove (n : string)
| CallClear.

Definition step (inherited : string -> bool) (Date_toString : Date -> string)
           (m : Cookies) (c : call) : Cookies :=
  match c with
  | CallSet n v e p d s => snd (set inherited Date_toString n v e p d s m)
  | CallRemove n => snd (remove inherited Date_toString n m)
  | CallClear => snd (clear Date_toString m)
  end.

Definition run (inherited : string -> bool) (Date_toString : Date -> string)
           (calls : list call) (m : Cookies) : Cookies :=
  fold_left (step inherited Date_toString) calls m.

Definition session (inherited : string -> bool) (Date_toString : Date -> string)
           (raw : string) (calls : list call) : Cookies :=
  run inherited Date_toString calls (construct raw).

(** Every character of a string satisfies a test. *)
Fixpoint all_chars (p : ascii -> bool) (s : string) : bool :=
  match s with
  | EmptyString => true
  | String c s' => p c && all_chars p s'
  end.

Definition no_equals (s : string) : bool :=
  all_chars (fun c => negb (Ascii.eqb c "=")) s.

(** * Properties *)

(** ** The matcher decides the language of a pattern *)
Module RegexFacts.

Lemma append_empty (s1 s2 : string) :
  s1 ++ s2 = "" -> s1 = "" /\ s2 = "".
Proof.
  destruct s1; simpl; [now split | discriminate].
Qed.

Lemma lang_empty_nullable (r : regex) (s : string) :
  lang r s -> s = "" -> nullable r = true.
Proof.
  induction 1 as [ | p c Hp | r1 r2 s1 s2 _ IH1 _ IH2 | r1 r2 s _ IH
                 | r1 r2 s _ IH | r | r c s1 s2 _ _ _ _ ];
    intros E; simpl; try reflexivity; try discriminate.
  - apply append_empty in E as [E1 E2]. now rewrite IH1, IH2.
  - now rewrite IH.
  - rewrite IH by assumption. apply orb_true_r.
Qed.

Lemma nullable_lang (r : regex) : nullable r = true <-> lang r "".
Proof.
  split; [|intros H; now apply (lang_empty_nullable r "")].
  induction r as [ | | p | r1 IH1 r2 IH2 | r1 IH1 r2 IH2 | r1 _ ];
    simpl; intros H; try discriminate.
  - constructor.
  - apply andb_true_iff in H as [H1 H2].
    change "" with ("" ++ ""). constructor; auto.
  - apply orb_true_iff in H as [H|H].
    + apply L_alt_l; auto.
    + apply L_alt_r; auto.
  - constructor.
Qed.

Lemma lang_deriv (r : regex) (s0 : string) :
  lang r s0 -> forall c s, s0 = String c s -> lang (deriv c r) s.
Proof.
  induction 1 as [ | p c0 Hp | r1 r2 s1 s2 H1 IH1 H2 IH2 | r1 r2 s0 _ IH
                 | r1 r2 s0 _ IH | r | r c0 s1 s2 H1 IH1 H2 _ ];
    intros c s E; simpl; try discriminate.
  - injection E as -> <-. rewrite Hp. constructor.
  - destruct s1 as [|c1 s1]; simpl in E.
    + apply nullable_lang in H1. rewrite H1.
      apply L_alt_r. now apply IH2.
    + injection E as -> <-.
      assert (Hd : lang (Seq (deriv c r1) r2) (s1 ++ s2))
        by (constructor; auto).
      destruct (nullable r1); [now apply L_alt_l | exact Hd].
  - apply L_alt_l. now apply IH.
  - apply L_alt_r. now apply IH.
  - simpl in E. injection E as -> <-.
    constructor; auto.
Qed.

Lemma deriv_lang (c : ascii) (r : regex) :
  forall s, lang (deriv c r) s -> lang r (String c s).
Proof.
  induction r as [ | | p | r1 IH1 r2 IH2 | r1 IH1 r2 IH2 | r1 IH1 ];
    simpl; intros s H.
  - inversion H.
  - inversion H.
  - destruct (p c) eqn:Hp; inversion H; subst. now constructor.
  - assert (Hseq : forall t, lang (Seq (deriv c r1) r2) t ->
                             lang (Seq r1 r2) (String c t)).
    { intros t Ht. inversion Ht; subst.
      change (String c (s1 ++ s2)) with (String c s1 ++ s2).
      constructor; auto. }
    destruct (nullable r1) eqn:Hn; [|now apply Hseq].
    inversion H; subst; [now apply Hseq|].
    change (String c s) with ("" ++ String c s).
    constructor; [now apply nullable_lang | auto].
  - inversion H; subst.
    + apply L_alt_l; auto.
    + apply L_alt_r; auto.
  - inversion H; subst.
    change (String c (s1 ++ s2)) with (String c s1 ++ s2).
    constructor; auto.
Qed.

Theorem full_match_lang (s : string) :
  forall r, full_match r s = true <-> lang r s.
Proof.
  induction s as [|c s IH]; intros r; simpl.
  - apply nullable_lang.
  - rewrite IH. split.
    + apply deriv_lang.
    + intros H. now apply (lang_deriv r (String c s)).
Qed.

Theorem search_to_end_lang (r : regex) (s : string) :
  search_to_end r s = true <->
  exists before after, s = before ++ after /\ lang r after.
Proof.
  induction s as [|c s IH]; cbn [search_to_end].
  - rewrite orb_false_r, full_match_lang. split.
    + intros H. now exists "", "".
    + intros (before & after & E & H).
      symmetry in E. apply append_empty in E as [_ ->]. exact H.
  - rewrite orb_true_iff, IH, full_match_lang. split.
    + intros [H | (before & after & -> & H)].
      * now exists "", (String c s).
      * now exists (String c before), after.
    + intros (before & after & E & H).
      destruct before as [|b before]; simpl in E.
      * left. now rewrite E.
      * injection E as -> ->. right. now exists before, after.
Qed.

End RegexFacts.

(** ** The parser *)
Section ParseFacts.

Lemma parse_part_unnamed (out : list Cookie) (cur : Cookie) (part : string) :
  name cur = "" ->
  fst (parse_part (out, cur) part) = out
  /\ name (snd (parse_part (out, cur) part)) = "".
Proof.
  intros Hcur. unfold parse_part.
  destruct (String.eqb (part_key part) "expires"); [now split|].
  destruct (String.eqb (part_key part) "domain"); [now split|].
  destruct (String.eqb (part_key part) "path"); [now split|].
  destruct (String.eqb (part_key part) "secure"); [now split|].
  rewrite Hcur. simpl. now split.
Qed.

Lemma parse_loop_unnamed (parts : list string) :
  forall (out : list Cookie) (cur : Cookie),
    name cur = "" ->
    fst (parse_loop parts (out, cur)) = out
    /\ name (snd (parse_loop parts (out, cur))) = "".
Proof.
  induction parts as [|part parts IH]; intros out cur Hcur.
  - now split.
  - change (parse_loop (part :: parts) (out, cur))
      with (parse_loop parts (parse_part (out, cur) part)).
    destruct (parse_part_unnamed out cur part Hcur) as [Hout Hname].
    destruct (parse_part (out, cur) part) as [out' cur'].
    simpl in Hout, Hname. subst out'.
    now apply IH.
Qed.

Lemma parse_part_expires (out : list Cookie) (cur : Cookie) (part : string) :
  part_key part = "expires" ->
  parse_part (out, cur) part
  = (out, with_expires
            (if expires_matches (part_value part)
             then Some (DateOfString (part_value part)) else None) cur).
Proof.
  intros Hkey. unfold parse_part. rewrite Hkey. reflexivity.
Qed.

End ParseFacts.

(** C9: whatever the raw string, [parse] returns the empty array: after
    any number of parts the in-progress cookie still has the empty name
    and nothing has been pushed. *)
Theorem parse_always_empty (raw : string) :
  parse raw = []
  /\ forall k : nat,
      let st := parse_loop (firstn k (split ";" raw)) ([], new_Cookie) in
      fst st = [] /\ name (snd st) = "".
Proof.
  split.
  - unfold parse. now apply parse_loop_unnamed.
  - intros k. now apply parse_loop_unnamed.
Qed.

(** C1: on ["a=1; b=2"] the part [a=1] is not an attribute token, yet
    the in-progress cookie keeps the empty name and value, and the
    result holds no record named [a]. *)
Theorem parse_never_names :
  part_key "a=1" = "a" /\ part_value "a=1" = "1"
  /\ parse_part ([], new_Cookie) "a=1" = ([], new_Cookie)
  /\ parse "a=1; b=2" = []
  /\ ~ (exists c, In c (parse "a=1; b=2") /\ name c = "a" /\ value c = "1").
Proof.
  repeat split; try reflexivity.
  intros [c [Hin _]]. exact Hin.
Qed.

(** C4: the date of the documented form is rejected by the pattern of
    the code, whose first piece asks for three non-word characters, so
    the part leaves [expires] undefined; the same date behind three
    punctuation marks is accepted. *)
Theorem parse_expires_rejects_day_name :
  expires_matches "Wed, 09 Jun 2021 10:18:14 GMT" = false
  /\ expires_matches "!!!, 09 Jun 2021 10:18:14 GMT" = true
  /\ forall (out : list Cookie) (cur : Cookie),
      parse_part (out, cur) "expires=Wed, 09 Jun 2021 10:18:14 GMT"
      = (out, with_expires None cur).
Proof.
  split; [vm_compute; reflexivity|].
  split; [vm_compute; reflexivity|].
  intros out cur.
  rewrite parse_part_expires by (vm_compute; reflexivity).
  replace (part_value "expires=Wed, 09 Jun 2021 10:18:14 GMT")
    with "Wed, 09 Jun 2021 10:18:14 GMT" by (vm_compute; reflexivity).
  replace (expires_matches "Wed, 09 Jun 2021 10:18:14 GMT")
    with false by (vm_compute; reflexivity).
  reflexivity.
Qed.

(** ** Searching and updating the array *)
Section ArrayFacts.

Lemma find_named_split (n : string) (cs : list Cookie) (c : Cookie) :
  find_named n cs = Some c ->
  exists before after,
    cs = (before ++ c :: after)%list
    /\ Forall (fun x => name x <> n) before
    /\ name c = n
    /\ forall f, update_named n f cs = (before ++ f c :: after)%list.
Proof.
  induction cs as [|x cs IH]; simpl; [discriminate|].
  destruct (String.eqb (name x) n) eqn:E.
  - intros [= ->]. exists [], cs. apply String.eqb_eq in E.
    repeat split; auto.
  - intros H. destruct (IH H) as (before & after & Hcs & Hbefore & Hc & Hupd).
    exists (x :: before), after. apply String.eqb_neq in E.
    repeat split; auto.
    + simpl. now rewrite Hcs.
    + intros f. simpl. now rewrite Hupd.
Qed.

Lemma find_named_absent (n : string) (cs : list Cookie) :
  Forall (fun x => name x <> n) cs -> find_named n cs = None.
Proof.
  induction 1 as [|x cs Hx _ IH]; simpl; [reflexivity|].
  apply String.eqb_neq in Hx. now rewrite Hx.
Qed.

Lemma update_named_named (n : string) (f : Cookie -> Cookie) (cs : list Cookie) :
  (forall c, name (f c) = name c) ->
  Forall named cs -> Forall named (update_named n f cs).
Proof.
  intros Hf. induction 1 as [|x cs Hx Hcs IH]; simpl; [constructor|].
  destruct (String.eqb (name x) n); constructor; auto.
  unfold named. now rewrite Hf.
Qed.

Lemma map_blank_named (cs : list Cookie) :
  Forall named cs -> Forall named (map blank cs).
Proof.
  induction 1; simpl; constructor; auto.
Qed.

Lemma length_positive (cs : list Cookie) :
  (0 <? List.length cs)%nat = true <-> cs <> [].
Proof.
  destruct cs; simpl; split; intros H; try discriminate; auto.
Qed.

End ArrayFacts.

(** ** The manager *)

(** What holds of [get] and [remove] for a name that no record has:
    nothing is written, the manager is unchanged and [get] is
    [undefined].  The boolean that [remove] returns is the value of
    [has], which need not be [false]. *)
Lemma absent_name_untouched (inherited : string -> bool)
      (Date_toString : Date -> string) (n : string) (m : Cookies) :
  Forall (fun x => name x <> n) (cookies m) ->
  remove inherited Date_toString n m = (has inherited n m, m)
  /\ get inherited n m = None.
Proof.
  intros H. apply find_named_absent in H.
  unfold remove, get. rewrite H.
  now destruct (has inherited n m).
Qed.

(** C10: when [remove(name)] returns [true] and [find] returns a
    record, the array after the call is the array before it with that
    one record replaced, at its position, by a record of empty value
    and epoch expiry whose name, path, domain and secure flag are those
    of the old one; the records before it (none of which has the name)
    and after it are the same, and so are length and order. *)
Theorem remove_frame (inherited : string -> bool)
        (Date_toString : Date -> string)
        (n : string) (m m' : Cookies) (c : Cookie) :
  remove inherited Date_toString n m = (true, m') ->
  find_named n (cookies m) = Some c ->
  exists before after c',
    cookies m = (before ++ c :: after)%list
    /\ cookies m' = (before ++ c' :: after)%list
    /\ Forall (fun x => name x <> n) before
    /\ value c' = "" /\ expires c' = Some epoch
    /\ name c' = name c /\ path c' = path c
    /\ domain c' = domain c /\ secure c' = secure c
    /\ List.length (cookies m') = List.length (cookies m)
    /\ map name (cookies m') = map name (cookies m).
Proof.
  intros Hrem Hfind. unfold remove in Hrem. rewrite Hfind in Hrem.
  destruct (has inherited n m); [|discriminate].
  injection Hrem as <-.
  destruct (find_named_split n (cookies m) c Hfind)
    as (before & after & Hcs & Hbefore & _ & Hupd).
  exists before, after, (blank c). simpl. rewrite Hupd, Hcs.
  repeat split; auto.
  - now rewrite !length_app.
  - now rewrite !map_app.
Qed.

(** C7: [clear()] returns [true] exactly when the array is non-empty.
    Then every record ends with the empty value and the epoch expiry,
    at its place and with its other fields, and the strings written are
    the serialisations of the blanked records, one per record, in
    order.  On the empty array it returns [false] and leaves the
    manager and the log alone. *)
Theorem clear_spec (Date_toString : Date -> string) (m : Cookies) :
  (fst (clear Date_toString m) = true <-> cookies m <> [])
  /\ (cookies m <> [] ->
      let m' := snd (clear Date_toString m) in
      Forall (fun c => value c = "" /\ expires c = Some epoch) (cookies m')
      /\ cookies m' = map blank (cookies m)
      /\ written m' = (written m ++ map (toString Date_toString) (cookies m'))%list
      /\ List.length (cookies m') = List.length (cookies m))
  /\ (cookies m = [] -> clear Date_toString m = (false, m)).
Proof.
  unfold clear. pose proof (length_positive (cookies m)) as Hpos.
  destruct (0 <? List.length (cookies m))%nat; simpl.
  - assert (Hne : cookies m <> []) by now apply Hpos.
    split; [tauto|]. split; [|tauto].
    intros _. repeat split.
    + apply Forall_forall. intros c Hc. apply in_map_iff in Hc.
      destruct Hc as (x & <- & _). now split.
    + now rewrite map_map.
    + now rewrite length_map.
  - assert (He : cookies m = []).
    { destruct (cookies m); [reflexivity|].
      assert (false = true) by (apply Hpos; discriminate). discriminate. }
    split; [split; [discriminate | intros H; now elim H]|].
    split; [intros H; now elim H | reflexivity].
Qed.

(** C8, amended: parsing at construction, [remove], [clear], and [set]
    with a non-empty name keep every stored record named. *)
Theorem all_named_preserved (inherited : string -> bool)
        (Date_toString : Date -> string) (m : Cookies) :
  all_named m ->
  (forall raw, all_named (construct raw))
  /\ (forall n v e p d s,
        n <> "" ->
        all_named (snd (set inherited Date_toString n v e p d s m)))
  /\ (forall n, all_named (snd (remove inherited Date_toString n m)))
  /\ all_named (snd (clear Date_toString m)).
Proof.
  unfold all_named. intros Hm. repeat split.
  - intros raw. simpl. unfold parse.
    destruct (parse_loop_unnamed (split ";" raw) [] new_Cookie eq_refl)
      as [-> _].
    constructor.
  - intros n v e p d s Hn. unfold set.
    destruct (has inherited n m).
    + destruct (find_named n (cookies m)); simpl; auto.
      now apply update_named_named.
    + simpl. apply Forall_app. split; auto.
  - intros n. unfold remove.
    destruct (has inherited n m); auto.
    destruct (find_named n (cookies m)); simpl; auto.
    now apply update_named_named.
  - unfold clear. destruct (0 <? List.length (cookies m))%nat; simpl; auto.
    now apply map_blank_named.
Qed.

(** ** Serialisation *)

Lemma append_assoc (a b c : string) : (a ++ b) ++ c = a ++ (b ++ c).
Proof.
  induction a as [|x a IH]; simpl; [reflexivity | now rewrite IH].
Qed.

(** C5, amended: [toString] gives [name=value] followed by the
    segments [; expires=<date>], [; path=<path>], [; domain=<domain>]
    and [; secure=true], in that order; the expires segment is left out
    when expires is unset, the path and domain segments when the
    attribute is unset or the empty string, and the secure segment
    when the flag is unset or false. *)
Theorem toString_spec (Date_toString : Date -> string) (c : Cookie) :
  toString Date_toString c
  = name c ++ "=" ++ value c
    ++ match expires c with
       | Some d => "; expires=" ++ Date_toString d
       | None => ""
       end
    ++ match path c with
       | Some p => if String.eqb p "" then "" else "; path=" ++ p
       | None => ""
       end
    ++ match domain c with
       | Some d => if String.eqb d "" then "" else "; domain=" ++ d
       | None => ""
       end
    ++ match secure c with
       | Some true => "; secure=true"
       | _ => ""
       end.
Proof.
  unfold toString, expires_segment, path_segment, domain_segment,
    secure_segment, truthy_string, truthy_bool.
  rewrite !append_assoc.
  repeat f_equal.
  - destruct (path c) as [p|]; [|reflexivity].
    now destruct (String.eqb p "").
  - destruct (domain c) as [d|]; [|reflexivity].
    now destruct (String.eqb d "").
  - now destruct (secure c) as [[|]|].
Qed.

(** C5, as stated, fails on a secure record: the code writes the flag
    with its value. *)
Lemma toString_secure_has_value :
  let c := {| name := "a"; value := "1"; expires := None; path := None;
              domain := None; secure := Some true |} in
  toString utc_Date_toString c = "a=1; secure=true"
  /\ serialize_as_specified utc_Date_toString c = "a=1; secure"
  /\ toString utc_Date_toString c <> serialize_as_specified utc_Date_toString c.
Proof.
  simpl. repeat split. discriminate.
Qed.

(** ** [has] looks at positions, not names *)

Lemma has_only_length (inherited : string -> bool) (n : string) (m1 m2 : Cookies) :
  List.length (cookies m1) = List.length (cookies m2) ->
  has inherited n m1 = has inherited n m2.
Proof.
  unfold has. now intros ->.
Qed.

(** C2: after [set('a', '1')] on the manager of an empty page the array
    holds a record named [a], and [has('a')] is [false]; [has('0')] is
    [true] although no record is named [0]. *)
Theorem has_is_not_name_search :
  let m := snd (set es2023_inherited utc_Date_toString "a" "1"
                  None None None None empty_manager) in
  cookies m = [plain "a" "1"]
  /\ (exists c, In c (cookies m) /\ name c = "a")
  /\ has es2023_inherited "a" m = false
  /\ has es2023_inherited "0" m = true
  /\ ~ (exists c, In c (cookies m) /\ name c = "0").
Proof.
  repeat split.
  - exists (plain "a" "1"). split; [now left | reflexivity].
  - intros (c & [<- | []] & Hc). discriminate.
Qed.

(** C3: the scenario of the test suite.  After
    [set('cookieName', 'cookieValue')] on the manager of an empty page
    the record is stored and written, but [has('cookieName')] is
    [false] and [get('cookieName')] is [undefined]. *)
Theorem set_then_get_undefined :
  let m := snd (set es2023_inherited utc_Date_toString
                  "cookieName" "cookieValue" None None None None
                  empty_manager) in
  cookies m = [plain "cookieName" "cookieValue"]
  /\ written m = ["cookieName=cookieValue"]
  /\ has es2023_inherited "cookieName" m = false
  /\ get es2023_inherited "cookieName" m = None.
Proof.
  repeat split.
Qed.

(** C6: no record of the manager of an empty page is named [length],
    and [remove('length')] returns [true], in every host; it writes
    nothing. *)
Theorem remove_absent_returns_true (inherited : string -> bool)
        (Date_toString : Date -> string) :
  Forall (fun x => name x <> "length") (cookies empty_manager)
  /\ remove inherited Date_toString "length" empty_manager
     = (true, empty_manager).
Proof.
  split; [constructor | reflexivity].
Qed.

(** C8, as stated, fails for [set]: an empty name is stored. *)
Lemma set_stores_empty_name :
  all_named empty_manager
  /\ ~ all_named (snd (set es2023_inherited utc_Date_toString "" "v"
                         None None None None empty_manager)).
Proof.
  split; [constructor|].
  intros H. unfold all_named in H.
  change (Forall named [plain "" "v"]) in H.
  inversion H as [|x l Hx Hl]. now apply Hx.
Qed.

(** ** Instances *)

(** The invariant theorem at the manager that holds the record [a]. *)
Lemma all_named_preserved_witness :
  all_named manager_a
  /\ all_named (snd (set es2023_inherited utc_Date_toString "b" "2"
                       None None None None manager_a))
  /\ all_named (snd (remove es2023_inherited utc_Date_toString "a" manager_a))
  /\ all_named (snd (clear utc_Date_toString manager_a)).
Proof.
  assert (H : all_named manager_a).
  { constructor; [unfold named; simpl; discriminate | constructor]. }
  destruct (all_named_preserved es2023_inherited utc_Date_toString manager_a H)
    as (_ & Hset & Hremove & Hclear).
  split; [exact H|].
  split; [apply Hset; discriminate|].
  split; [apply Hremove | exact Hclear].
Defined.

(** The frame theorem at [remove('0')] on the manager that holds the
    records [0] and [b]. *)
Lemma remove_frame_witness :
  exists before after c',
    cookies manager_0b = (before ++ plain "0" "x" :: after)%list
    /\ cookies (snd (remove es2023_inherited utc_Date_toString "0" manager_0b))
       = (before ++ c' :: after)%list
    /\ Forall (fun x => name x <> "0") before
    /\ value c' = "" /\ expires c' = Some epoch
    /\ name c' = name (plain "0" "x") /\ path c' = path (plain "0" "x")
    /\ domain c' = domain (plain "0" "x") /\ secure c' = secure (plain "0" "x")
    /\ List.length
         (cookies (snd (remove es2023_inherited utc_Date_toString "0" manager_0b)))
       = List.length (cookies manager_0b)
    /\ map name
         (cookies (snd (remove es2023_inherited utc_Date_toString "0" manager_0b)))
       = map name (cookies manager_0b).
Proof.
  apply (remove_frame es2023_inherited utc_Date_toString "0" manager_0b
           (snd (remove es2023_inherited utc_Date_toString "0" manager_0b))
           (plain "0" "x")); reflexivity.
Defined.


(** * Further properties of the manager *)

(** ** Helper facts *)

Lemma append_nil_r (s : string) : s ++ "" = s.
Proof.
  induction s as [|x s IH]; simpl; [reflexivity | now rewrite IH].
Qed.

Lemma toString_plain (Date_toString : Date -> string) (n v : string) :
  toString Date_toString (plain n v) = n ++ "=" ++ v.
Proof.
  unfold toString. simpl. now rewrite !append_nil_r.
Qed.

Lemma update_named_names (n : string) (f : Cookie -> Cookie) (cs : list Cookie) :
  (forall c, name (f c) = name c) ->
  map name (update_named n f cs) = map name cs.
Proof.
  intros Hf. induction cs as [|x cs IH]; simpl; [reflexivity|].
  destruct (String.eqb (name x) n); simpl; [now rewrite Hf | now rewrite IH].
Qed.

Lemma update_named_length (n : string) (f : Cookie -> Cookie) (cs : list Cookie) :
  List.length (update_named n f cs) = List.length cs.
Proof.
  induction cs as [|x cs IH]; simpl; [reflexivity|].
  destruct (String.eqb (name x) n); simpl; [reflexivity | now rewrite IH].
Qed.

Lemma find_named_update (n : string) (f : Cookie -> Cookie) (cs : list Cookie) :
  (forall c, name (f c) = name c) ->
  find_named n (update_named n f cs) = option_map f (find_named n cs).
Proof.
  intros Hf. induction cs as [|x cs IH]; simpl; [reflexivity|].
  destruct (String.eqb (name x) n) eqn:E; simpl.
  - now rewrite Hf, E.
  - now rewrite E.
Qed.

Lemma find_named_map_blank (n : string) (cs : list Cookie) :
  find_named n (map blank cs) = option_map blank (find_named n cs).
Proof.
  induction cs as [|x cs IH]; simpl; [reflexivity|].
  now destruct (String.eqb (name x) n).
Qed.

Lemma find_named_app_absent (n : string) (cs : list Cookie) (c : Cookie) :
  find_named n cs = None ->
  find_named n (cs ++ [c]) = if String.eqb (name c) n then Some c else None.
Proof.
  induction cs as [|x cs IH]; simpl; [reflexivity|].
  destruct (String.eqb (name x) n); [discriminate | exact IH].
Qed.

Lemma find_named_none (n : string) (cs : list Cookie) :
  find_named n cs = None -> Forall (fun x => name x <> n) cs.
Proof.
  induction cs as [|x cs IH]; simpl; [constructor|].
  destruct (String.eqb (name x) n) eqn:E; [discriminate|].
  intros H. constructor; [now apply String.eqb_neq | auto].
Qed.

Lemma in_array_mono (inherited : string -> bool) (key : string) (len len' : nat) :
  len <= len' ->
  in_array inherited key len = true -> in_array inherited key len' = true.
Proof.
  unfold in_array. intros Hle H.
  apply orb_true_iff in H as [H | H]; [|now rewrite H, orb_true_r].
  apply orb_true_iff in H as [H | H]; [|now rewrite H, orb_true_r].
  apply existsb_exists in H as (i & Hi & E).
  assert (Hex : existsb (fun i => String.eqb key (index_key i)) (seq 0 len') = true).
  { apply existsb_exists. exists i. split; [|exact E].
    apply in_seq in Hi. apply in_seq. lia. }
  now rewrite Hex.
Qed.

Lemma in_array_cases (inherited : string -> bool) (key : string) (len : nat) :
  in_array inherited key len = true ->
  (exists i, i < len /\ key = index_key i)
  \/ key = "length" \/ inherited key = true.
Proof.
  unfold in_array. intros H.
  apply orb_true_iff in H as [H | H]; [|now right; right].
  apply orb_true_iff in H as [H | H]; [|right; left; now apply String.eqb_eq].
  apply existsb_exists in H as (i & Hi & E). left. exists i.
  apply in_seq in Hi. apply String.eqb_eq in E. split; [lia | exact E].
Qed.

Lemma in_array_false (inherited : string -> bool) (key : string) (len : nat) :
  in_array inherited key len = false ->
  key <> "length" /\ inherited key = false.
Proof.
  unfold in_array. intros H.
  apply orb_false_iff in H as [H Hi].
  apply orb_false_iff in H as [_ Hl].
  split; [now apply String.eqb_neq | exact Hi].
Qed.

(** ** [get] *)

(** X2: [get(n)] returns a value exactly when [n] is a property key of the
    array and some record has the name [n]; the value is that of the
    first such record. *)
Theorem get_first_named (inherited : string -> bool) (n v : string) (m : Cookies) :
  get inherited n m = Some v <->
  has inherited n m = true
  /\ exists before c after,
      cookies m = (before ++ c :: after)%list
      /\ Forall (fun x => name x <> n) before
      /\ name c = n /\ value c = v.
Proof.
  unfold get. split.
  - destruct (has inherited n m); [|discriminate].
    destruct (find_named n (cookies m)) as [c|] eqn:F; [|discriminate].
    intros [= <-]. split; [reflexivity|].
    destruct (find_named_split n (cookies m) c F)
      as (before & after & Hcs & Hb & Hn & _).
    now exists before, c, after.
  - intros (-> & before & c & after & Hcs & Hb & Hn & Hv).
    rewrite Hcs. unfold find_named. clear Hcs.
    induction Hb as [|x before Hx _ IH]; simpl.
    + apply String.eqb_eq in Hn. now rewrite Hn, Hv.
    + apply String.eqb_neq in Hx. now rewrite Hx.
Qed.

(** ** [set] *)

(** X3: When [n] is a property key of the array but no record has that
    name, [set(n, ...)] returns [true] and does nothing: no record is
    stored or changed and nothing is written. *)
Theorem set_unstored_key_is_noop (inherited : string -> bool)
        (Date_toString : Date -> string) (n v : string) (e : option Date)
        (p d : option string) (s : option bool) (m : Cookies) :
  has inherited n m = true ->
  Forall (fun x => name x <> n) (cookies m) ->
  set inherited Date_toString n v e p d s m = (true, m).
Proof.
  intros Hhas Habs. unfold set.
  now rewrite Hhas, (find_named_absent n (cookies m) Habs).
Qed.

(** X4: When [n] is a property key of the array and a record has that
    name, [set] returns [true], changes the first such record and
    writes its serialisation; the names and their order stay, and
    afterwards [has(n)] is [true] and [get(n)] is the new value. *)
Theorem set_overwrites (inherited : string -> bool)
        (Date_toString : Date -> string) (n v : string) (e : option Date)
        (p d : option string) (s : option bool) (m : Cookies) (c : Cookie) :
  has inherited n m = true ->
  find_named n (cookies m) = Some c ->
  let r := set inherited Date_toString n v e p d s m in
  fst r = true
  /\ keys (snd r) = keys m
  /\ has inherited n (snd r) = true
  /\ get inherited n (snd r) = Some v
  /\ exists c',
      find_named n (cookies (snd r)) = Some c'
      /\ name c' = n /\ value c' = v /\ expires c' = e /\ path c' = p
      /\ domain c' = d /\ secure c' = Some (truthy_bool s)
      /\ written (snd r) = (written m ++ [toString Date_toString c'])%list.
Proof.
  intros Hhas Hfind. unfold set. rewrite Hhas, Hfind. simpl.
  assert (Hname : forall x, name (assign v e p d s x) = name x) by reflexivity.
  assert (Hhas' : has inherited n
                    {| cookies := update_named n (assign v e p d s) (cookies m);
                       written := (written m
                         ++ [toString Date_toString (assign v e p d s c)])%list |}
                  = true).
  { unfold has in *. simpl. now rewrite update_named_length. }
  assert (Hn : name c = n).
  { destruct (find_named_split n (cookies m) c Hfind) as (? & ? & _ & _ & Hn & _).
    exact Hn. }
  repeat split.
  - unfold keys. simpl. now apply update_named_names.
  - exact Hhas'.
  - unfold get. rewrite Hhas'. simpl.
    now rewrite find_named_update, Hfind.
  - exists (assign v e p d s c). simpl.
    rewrite find_named_update, Hfind by assumption. now repeat split.
Qed.

(** When [n] is not a property key of the array, [set] returns
    [false], pushes one new record with the given attributes at the
    end, whatever the array already holds, and writes its
    serialisation. *)
Theorem set_appends (inherited : string -> bool)
        (Date_toString : Date -> string) (n v : string) (e : option Date)
        (p d : option string) (s : option bool) (m : Cookies) :
  has inherited n m = false ->
  let r := set inherited Date_toString n v e p d s m in
  fst r = false
  /\ keys (snd r) = (keys m ++ [n])%list
  /\ exists c',
      cookies (snd r) = (cookies m ++ [c'])%list
      /\ name c' = n /\ value c' = v /\ expires c' = e /\ path c' = p
      /\ domain c' = d /\ secure c' = Some (truthy_bool s)
      /\ written (snd r) = (written m ++ [toString Date_toString c'])%list.
Proof.
  intros Hhas. unfold set. rewrite Hhas. simpl. repeat split.
  - unfold keys. simpl. now rewrite map_app.
  - eexists. repeat split.
Qed.

(** X7: A name that is not a property key of the array, even after one
    more push, is stored anew by every [set]: two calls leave two
    records with that name, both return [false], and [get] of the
    name is [undefined] after each. *)
Theorem set_twice_duplicates (inherited : string -> bool)
        (Date_toString : Date -> string) (n v1 v2 : string) (m : Cookies) :
  in_array inherited n (2 + List.length (cookies m)) = false ->
  let r1 := set inherited Date_toString n v1 None None None None m in
  let r2 := set inherited Date_toString n v2 None None None None (snd r1) in
  fst r1 = false /\ fst r2 = false
  /\ cookies (snd r2) = (cookies m ++ [plain n v1; plain n v2])%list
  /\ written (snd r2) = (written m ++ [(n ++ "=" ++ v1)%string; (n ++ "=" ++ v2)%string])%list
  /\ get inherited n (snd r1) = None
  /\ get inherited n (snd r2) = None.
Proof.
  intros H2. cbv zeta.
  assert (Hlen : forall k, k <= 2 + List.length (cookies m) ->
                           in_array inherited n k = false).
  { intros k Hk. destruct (in_array inherited n k) eqn:E; [|reflexivity].
    rewrite (in_array_mono inherited n k _ Hk E) in H2. discriminate. }
  assert (Hpush : forall v m0,
             List.length (cookies m0) <= 1 + List.length (cookies m) ->
             set inherited Date_toString n v None None None None m0
             = (false, {| cookies := (cookies m0 ++ [plain n v])%list;
                          written := (written m0 ++ [(n ++ "=" ++ v)%string])%list |})
               /\ get inherited n m0 = None).
  { intros v m0 Hm0.
    assert (H0 : has inherited n m0 = false) by (apply Hlen; lia).
    unfold set, get. rewrite H0. split; [|reflexivity].
    change (assign v None None None None (with_name n new_Cookie))
      with (plain n v).
    now rewrite toString_plain. }
  destruct (Hpush v1 m) as [-> _]; [lia|]. cbn [fst snd].
  set (m1 := {| cookies := (cookies m ++ [plain n v1])%list; written := _ |}).
  assert (Hm1 : List.length (cookies m1) <= 1 + List.length (cookies m)).
  { unfold m1. simpl. rewrite length_app. simpl. lia. }
  destruct (Hpush v2 m1 Hm1) as [-> Hget1]. cbn [fst snd].
  repeat split.
  - unfold m1. simpl. now rewrite <- app_assoc.
  - unfold m1. simpl. now rewrite <- app_assoc.
  - exact Hget1.
  - unfold get, has. subst m1. simpl. rewrite !length_app. simpl.
    rewrite Hlen; [reflexivity | lia].
Qed.

(** X8: Without the optional arguments, [set(n, v)] writes at most one
    string, and that string is [n=v]. *)
Theorem set_plain_writes_pair (inherited : string -> bool)
        (Date_toString : Date -> string) (n v : string) (m : Cookies) :
  let m' := snd (set inherited Date_toString n v None None None None m) in
  written m' = written m \/ written m' = (written m ++ [(n ++ "=" ++ v)%string])%list.
Proof.
  unfold set. destruct (has inherited n m).
  - destruct (find_named n (cookies m)) as [c|] eqn:F; [|now left].
    right. simpl.
    destruct (find_named_split n (cookies m) c F) as (? & ? & _ & _ & Hn & _).
    change (assign v None None None None c) with (plain (name c) v).
    now rewrite toString_plain, Hn.
  - right. simpl.
    change (assign v None None None None (with_name n new_Cookie))
      with (plain n v).
    now rewrite toString_plain.
Qed.

(** ** [remove] and [clear] *)

(** X9: After a [remove(n)] that found a record, the record is still in
    the array: the names are the same, [has(n)] is [true] and [get(n)]
    is the empty string. *)
Theorem remove_then_get_empty (inherited : string -> bool)
        (Date_toString : Date -> string) (n : string) (m : Cookies) (c : Cookie) :
  has inherited n m = true ->
  find_named n (cookies m) = Some c ->
  let r := remove inherited Date_toString n m in
  fst r = true
  /\ keys (snd r) = keys m
  /\ has inherited n (snd r) = true
  /\ get inherited n (snd r) = Some "".
Proof.
  intros Hhas Hfind. unfold remove. rewrite Hhas, Hfind. simpl.
  assert (Hhas' : has inherited n
                    {| cookies := update_named n blank (cookies m);
                       written := (written m
                                   ++ [toString Date_toString (blank c)])%list |}
                  = true).
  { unfold has in *. simpl. now rewrite update_named_length. }
  repeat split.
  - unfold keys. simpl. now apply update_named_names.
  - exact Hhas'.
  - unfold get. rewrite Hhas'. simpl.
    now rewrite find_named_update, Hfind.
Qed.

(** X10: The one string that such a [remove(n)] writes is the name, an
    empty value and an expires attribute at the epoch, followed by the
    path, domain and secure segments the record had. *)
Theorem remove_writes_epoch (inherited : string -> bool)
        (Date_toString : Date -> string) (n : string) (m : Cookies) (c : Cookie) :
  has inherited n m = true ->
  find_named n (cookies m) = Some c ->
  written (snd (remove inherited Date_toString n m))
  = (written m
     ++ [(n ++ "=; expires=" ++ Date_toString epoch
          ++ path_segment c ++ domain_segment c ++ secure_segment c)%string])%list.
Proof.
  intros Hhas Hfind. unfold remove. rewrite Hhas, Hfind. simpl.
  destruct (find_named_split n (cookies m) c Hfind) as (? & ? & _ & _ & Hn & _).
  do 2 f_equal. unfold toString, expires_segment. simpl.
  rewrite Hn.
  change (path_segment (blank c)) with (path_segment c).
  change (domain_segment (blank c)) with (domain_segment c).
  change (secure_segment (blank c)) with (secure_segment c).
  rewrite !append_assoc. reflexivity.
Qed.

(** X11: [clear()] removes no record: the names and the answers of [has]
    are the same before and after; [get] answers the empty string for
    every name for which it answered a value; a second [clear] leaves
    the array as the first did. *)
Theorem clear_keeps_records (Date_toString : Date -> string) (m : Cookies) :
  let m' := snd (clear Date_toString m) in
  keys m' = keys m
  /\ (forall inherited n, has inherited n m' = has inherited n m)
  /\ (forall inherited n,
        get inherited n m'
        = match get inherited n m with
          | Some _ => Some ""
          | None => None
          end)
  /\ cookies (snd (clear Date_toString m')) = cookies m'.
Proof.
  unfold clear.
  destruct (0 <? List.length (cookies m))%nat eqn:E; simpl.
  - assert (Hhas : forall inherited n,
               has inherited n
                 {| cookies := map blank (cookies m);
                    written := (written m
                       ++ map (fun cookie => toString Date_toString (blank cookie))
                              (cookies m))%list |}
               = has inherited n m).
    { intros inherited n. unfold has. simpl. now rewrite length_map. }
    repeat split.
    + unfold keys. simpl. rewrite map_map. reflexivity.
    + exact Hhas.
    + intros inherited n. unfold get. rewrite Hhas. simpl.
      destruct (has inherited n m); [|reflexivity].
      rewrite find_named_map_blank.
      now destruct (find_named n (cookies m)).
    + rewrite length_map, E. simpl. rewrite map_map. reflexivity.
  - rewrite E. repeat split.
    intros inherited n. unfold get.
    destruct (cookies m); [|discriminate]. simpl.
    now destruct (has inherited n m).
Qed.

(** ** Sessions *)

Lemma step_grows (inherited : string -> bool) (Date_toString : Date -> string)
      (m : Cookies) (c : call) :
  List.length (cookies m) <= List.length (cookies (step inherited Date_toString m c))
  /\ exists extra,
      written (step inherited Date_toString m c) = (written m ++ extra)%list.
Proof.
  destruct c as [n v e p d s | n | ]; simpl.
  - unfold set. destruct (has inherited n m).
    + destruct (find_named n (cookies m)); simpl.
      * rewrite update_named_length. split; [lia | eauto].
      * split; [lia | exists []; now rewrite app_nil_r].
    + simpl. rewrite length_app. simpl. split; [lia | eauto].
  - unfold remove. destruct (has inherited n m).
    + destruct (find_named n (cookies m)); simpl.
      * rewrite update_named_length. split; [lia | eauto].
      * split; [lia | exists []; now rewrite app_nil_r].
    + simpl. split; [lia | exists []; now rewrite app_nil_r].
  - unfold clear. destruct (0 <? List.length (cookies m))%nat; simpl.
    + rewrite length_map. split; [lia | eauto].
    + split; [lia | exists []; now rewrite app_nil_r].
Qed.

(** X13: No sequence of calls shrinks the array or takes back a write, and
    a name for which [has] answers [true] keeps that answer for good. *)
Theorem run_grows (inherited : string -> bool) (Date_toString : Date -> string)
        (calls : list call) (m : Cookies) :
  let m' := run inherited Date_toString calls m in
  List.length (cookies m) <= List.length (cookies m')
  /\ (exists extra, written m' = (written m ++ extra)%list)
  /\ (forall n, has inherited n m = true -> has inherited n m' = true).
Proof.
  cbv zeta. revert m.
  induction calls as [|c calls IH]; intros m.
  - simpl. repeat split; auto. exists []. now rewrite app_nil_r.
  - change (run inherited Date_toString (c :: calls) m)
      with (run inherited Date_toString calls (step inherited Date_toString m c)).
    destruct (step_grows inherited Date_toString m c) as (Hlen & extra1 & Hw).
    destruct (IH (step inherited Date_toString m c)) as (Hlen' & (extra2 & Hw') & Hhas).
    repeat split.
    + lia.
    + exists (extra1 ++ extra2)%list. now rewrite Hw', Hw, app_assoc.
    + intros n Hn. apply Hhas. unfold has in *.
      now apply (in_array_mono inherited n _ _ Hlen).
Qed.

Lemma update_named_Forall (P : Cookie -> Prop) (n : string)
      (f : Cookie -> Cookie) (cs : list Cookie) :
  (forall x, P x -> P (f x)) ->
  Forall P cs -> Forall P (update_named n f cs).
Proof.
  intros Hf. induction 1 as [|x cs Hx Hcs IH]; simpl; [constructor|].
  destruct (String.eqb (name x) n); constructor; auto.
Qed.

Lemma step_storable (inherited : string -> bool) (Date_toString : Date -> string)
      (P : Cookie -> Prop) (m : Cookies) (c : call) :
  (forall n v e p d s,
      n <> "length" -> inherited n = false ->
      P (assign v e p d s (with_name n new_Cookie))) ->
  (forall v e p d s x, P x -> P (assign v e p d s x)) ->
  (forall x, P x -> P (blank x)) ->
  Forall P (cookies m) ->
  Forall P (cookies (step inherited Date_toString m c)).
Proof.
  intros Hnew Hassign Hblank Hm.
  destruct c as [n v e p d s | n | ]; simpl.
  - unfold set. destruct (has inherited n m) eqn:Hhas.
    + destruct (find_named n (cookies m)); simpl; auto.
      apply update_named_Forall; auto.
    + simpl. apply Forall_app. split; [exact Hm|].
      constructor; [|constructor].
      destruct (in_array_false inherited n _ Hhas). now apply Hnew.
  - unfold remove. destruct (has inherited n m); auto.
    destruct (find_named n (cookies m)); simpl; auto.
    apply update_named_Forall; auto.
  - unfold clear. destruct (0 <? List.length (cookies m))%nat; simpl; auto.
    apply Forall_forall. intros x Hx. apply in_map_iff in Hx as (y & <- & Hy).
    apply Hblank. rewrite Forall_forall in Hm. auto.
Qed.

(** X15: In every session, whatever the page's cookie string and the calls:
    no stored record is named [length] or by a key that arrays inherit,
    and every stored record's secure flag is a boolean; hence [get]
    answers a value only for a name that is the decimal numeral of an
    index below the array's length. *)
Theorem session_keys_only_indices (inherited : string -> bool)
        (Date_toString : Date -> string) (raw : string) (calls : list call) :
  let m := session inherited Date_toString raw calls in
  Forall (fun c => name c <> "length" /\ inherited (name c) = false
                   /\ exists b, secure c = Some b) (cookies m)
  /\ forall n v,
      get inherited n m = Some v ->
      exists i, i < List.length (cookies m) /\ n = index_key i.
Proof.
  cbv zeta.
  set (P := fun c => name c <> "length" /\ inherited (name c) = false
                     /\ exists b, secure c = Some b).
  assert (Hinv : Forall P (cookies (session inherited Date_toString raw calls))).
  { unfold session.
    assert (H0 : Forall P (cookies (construct raw))).
    { simpl. unfold parse.
      destruct (parse_loop_unnamed (split ";" raw) [] new_Cookie eq_refl)
        as [-> _].
      constructor. }
    revert H0. generalize (construct raw).
    induction calls as [|c calls IH]; intros m Hm; [exact Hm|].
    apply IH. apply step_storable; [ | | | exact Hm].
    - intros n v e p d s Hn Hi. unfold P. simpl. eauto.
    - intros v e p d s x (Hn & Hi & _). unfold P. simpl. eauto.
    - intros x Hx. exact Hx. }
  split; [exact Hinv|].
  intros n v Hget. unfold get in Hget.
  destruct (has inherited n (session inherited Date_toString raw calls)) eqn:Hhas;
    [|discriminate].
  destruct (find_named n (cookies (session inherited Date_toString raw calls)))
    as [c|] eqn:F; [|discriminate].
  destruct (find_named_split n _ c F) as (before & after & Hcs & _ & Hn & _).
  assert (Hc : P c).
  { rewrite Forall_forall in Hinv. apply Hinv. rewrite Hcs.
    apply in_or_app. right. now left. }
  destruct Hc as (Hlen & Hinh & _). rewrite Hn in Hlen, Hinh.
  destruct (in_array_cases inherited n _ Hhas) as [Hi | [Hl | Hi]].
  - exact Hi.
  - contradiction.
  - congruence.
Qed.

(** X1: A manager built on any page holds no record: [keys()] is empty,
    [get] is [undefined] for every name, [clear()] returns [false],
    and neither [clear] nor [remove] writes anything. *)
Theorem construct_sees_no_cookie (inherited : string -> bool)
        (Date_toString : Date -> string) (raw : string) :
  let m := construct raw in
  keys m = []
  /\ (forall n, get inherited n m = None)
  /\ clear Date_toString m = (false, m)
  /\ (forall n, snd (remove inherited Date_toString n m) = m).
Proof.
  cbv zeta.
  assert (E : construct raw = {| cookies := []; written := [] |}).
  { unfold construct, parse.
    now destruct (parse_loop_unnamed (split ";" raw) [] new_Cookie eq_refl)
      as [-> _]. }
  rewrite E. repeat split.
  - intros n. unfold get. simpl. now destruct (has inherited n _).
  - intros n. unfold remove. simpl. now destruct (has inherited n _).
Qed.

(** * Further properties of the parser *)

(** ** Splitting a part at its equals signs *)

Lemma split_no_sep (sep : ascii) (s : string) :
  all_chars (fun c => negb (Ascii.eqb c sep)) s = true ->
  split sep s = [s].
Proof.
  induction s as [|c s IH]; simpl; [reflexivity|].
  intros H. apply andb_true_iff in H as [Hc Hs].
  apply negb_true_iff in Hc. now rewrite Hc, IH.
Qed.

Lemma split_at_sep (sep : ascii) (a b : string) :
  all_chars (fun c => negb (Ascii.eqb c sep)) a = true ->
  split sep (a ++ String sep b) = a :: split sep b.
Proof.
  induction a as [|c a IH]; simpl.
  - intros _. now rewrite Ascii.eqb_refl.
  - intros H. apply andb_true_iff in H as [Hc Ha].
    apply negb_true_iff in Hc. now rewrite Hc, IH.
Qed.

Lemma trim_or_empty (v : string) :
  (if String.eqb v "" then "" else trim v) = trim v.
Proof.
  destruct (String.eqb v "") eqn:E; [|reflexivity].
  apply String.eqb_eq in E. now subst v.
Qed.

(** X16: A part without an equals sign, such as a bare [secure], has the
    trimmed part as its key and the empty string as its value. *)
Theorem part_without_equals (part : string) :
  no_equals part = true ->
  part_key part = trim part /\ part_value part = "".
Proof.
  intros H. unfold part_key, part_value.
  now rewrite (split_no_sep "=" part H).
Qed.

(** X17: In a part with equals signs the key is the trimmed text before the
    first one and the value is the trimmed text between the first and
    the second: whatever follows a second equals sign is dropped. *)
Theorem part_with_equals (k v : string) :
  no_equals k = true ->
  no_equals v = true ->
  part_key (k ++ "=" ++ v) = trim k
  /\ part_value (k ++ "=" ++ v) = trim v
  /\ forall rest,
      part_key (k ++ "=" ++ v ++ "=" ++ rest) = trim k
      /\ part_value (k ++ "=" ++ v ++ "=" ++ rest) = trim v.
Proof.
  intros Hk Hv. unfold part_key, part_value.
  change (k ++ "=" ++ v) with (k ++ String "=" v).
  rewrite (split_at_sep "=" k v Hk), (split_no_sep "=" v Hv). simpl.
  rewrite trim_or_empty. repeat split.
  - change (k ++ "=" ++ v ++ "=" ++ rest) with (k ++ String "=" (v ++ String "=" rest)).
    now rewrite (split_at_sep "=" k _ Hk).
  - change (k ++ "=" ++ v ++ "=" ++ rest) with (k ++ String "=" (v ++ String "=" rest)).
    rewrite (split_at_sep "=" k _ Hk), (split_at_sep "=" v rest Hv). simpl.
    apply trim_or_empty.
Qed.

(** ** What the two patterns accept *)

Lemma lang_class_inv (p : ascii -> bool) (s : string) :
  lang (Class p) s -> exists c, s = String c "" /\ p c = true.
Proof.
  intros H. inversion H; subst. eauto.
Qed.

Lemma lang_seq_inv (r1 r2 : regex) (s : string) :
  lang (Seq r1 r2) s ->
  exists s1 s2, s = s1 ++ s2 /\ lang r1 s1 /\ lang r2 s2.
Proof.
  intros H. inversion H; subst. eauto.
Qed.

Lemma lang_eps_inv (s : string) : lang Eps s -> s = "".
Proof.
  intros H. now inversion H.
Qed.

Lemma lang_star_class (p : ascii -> bool) (s : string) :
  lang (Star (Class p)) s <-> all_chars p s = true.
Proof.
  split.
  - intros H. remember (Star (Class p)) as r eqn:Er.
    induction H as [ | | | | | r | r c s1 s2 H1 _ H2 IH2 ];
      try discriminate; [reflexivity|].
    injection Er as ->.
    apply lang_class_inv in H1 as (c' & [= -> ->] & Hc).
    simpl. rewrite Hc. now apply IH2.
  - induction s as [|c s IH]; simpl; intros H; [constructor|].
    apply andb_true_iff in H as [Hc Hs].
    change (String c s) with (String c "" ++ s).
    constructor; [now constructor | auto].
Qed.

Lemma path_matches_iff (v : string) :
  path_matches v = true <->
  exists rest, v = String "/" rest /\ all_chars path_char rest = true.
Proof.
  unfold path_matches. rewrite RegexFacts.full_match_lang.
  unfold path_pattern, seqs, opt, lit. cbn [fold_right]. split.
  - intros H.
    apply lang_seq_inv in H as (s1 & s2 & -> & H1 & H2).
    apply lang_class_inv in H1 as (c & -> & Hc).
    apply Ascii.eqb_eq in Hc. subst c.
    apply lang_seq_inv in H2 as (s3 & s4 & -> & H3 & H4).
    apply lang_eps_inv in H4. subst s4.
    exists (s3 ++ ""). split; [reflexivity|].
    rewrite append_nil_r.
    inversion H3; subst.
    + match goal with E : lang Eps _ |- _ => apply lang_eps_inv in E; now subst end.
    + now apply lang_star_class.
  - intros (rest & -> & Hrest).
    change (String "/" rest) with (String "/" "" ++ rest).
    constructor; [constructor; apply Ascii.eqb_refl|].
    rewrite <- (append_nil_r rest).
    constructor; [|constructor].
    apply L_alt_r. now apply lang_star_class.
Qed.

Lemma expires_matches_shape (v : string) :
  expires_matches v = true ->
  exists before a b c after,
    v = before ++ String a (String b (String c (", " ++ after)))
    /\ non_word_char a = true /\ non_word_char b = true
    /\ non_word_char c = true.
Proof.
  unfold expires_matches. rewrite RegexFacts.search_to_end_lang.
  intros (before & after & -> & H).
  unfold expires_pattern, seqs in H. cbn [fold_right] in H.
  apply lang_seq_inv in H as (s1 & s2 & -> & H1 & H2).
  cbn [rep] in H1.
  apply lang_seq_inv in H1 as (a1 & t1 & -> & Ha & H1).
  apply lang_seq_inv in H1 as (b1 & t2 & -> & Hb & H1).
  apply lang_seq_inv in H1 as (c1 & t3 & -> & Hc & H1).
  apply lang_eps_inv in H1. subst t3.
  apply lang_class_inv in Ha as (a & -> & Ha).
  apply lang_class_inv in Hb as (b & -> & Hb).
  apply lang_class_inv in Hc as (c & -> & Hc).
  apply lang_seq_inv in H2 as (k1 & t4 & -> & Hk1 & H2).
  apply lang_seq_inv in H2 as (k2 & t5 & -> & Hk2 & _).
  unfold lit in Hk1, Hk2.
  apply lang_class_inv in Hk1 as (x & -> & Hx).
  apply lang_class_inv in Hk2 as (y & -> & Hy).
  apply Ascii.eqb_eq in Hx, Hy. subst x y.
  exists before, a, b, c, t5. simpl. auto.
Qed.

(** X18: A [path] part sets the path to its value exactly when the value is
    a slash followed only by letters, digits and the punctuation of
    the class; any other value, the empty one included, leaves the
    path [undefined].  Nothing is appended to the output. *)
Theorem parse_path_accepts (out : list Cookie) (cur : Cookie) (part : string) :
  part_key part = "path" ->
  let st := parse_part (out, cur) part in
  fst st = out
  /\ (path (snd st) = Some (part_value part) \/ path (snd st) = None)
  /\ (path (snd st) = Some (part_value part) <->
      exists rest,
        part_value part = String "/" rest /\ all_chars path_char rest = true).
Proof.
  intros Hkey. unfold parse_part. rewrite Hkey. simpl.
  rewrite <- path_matches_iff.
  destruct (path_matches (part_value part)); simpl.
  - repeat split; auto.
  - repeat split; auto; discriminate.
Qed.

(** X19: An [expires] part sets the expiry only if its value holds three
    consecutive characters that are neither letters, digits nor
    underscores, followed by a comma and a space; the expiry is then
    the date built from the value. *)
Theorem parse_expires_needs_punctuation (out : list Cookie) (cur : Cookie)
        (part : string) (d : Date) :
  part_key part = "expires" ->
  expires (snd (parse_part (out, cur) part)) = Some d ->
  d = DateOfString (part_value part)
  /\ exists before a b c after,
      part_value part
      = before ++ String a (String b (String c (", " ++ after)))
      /\ non_word_char a = true /\ non_word_char b = true
      /\ non_word_char c = true.
Proof.
  intros Hkey. rewrite parse_part_expires by exact Hkey. simpl.
  destruct (expires_matches (part_value part)) eqn:E; [|discriminate].
  intros [= <-]. split; [reflexivity|].
  now apply expires_matches_shape.
Qed.

(** * Further properties of [has], [set] and [keys] *)

Lemma in_array_succ (inherited : string -> bool) (key : string) (len : nat) :
  in_array inherited key (S len)
  = in_array inherited key len || String.eqb key (index_key len).
Proof.
  unfold in_array. rewrite seq_S, existsb_app. simpl.
  destruct (existsb _ (seq 0 len)), (String.eqb key (index_key len)),
    (String.eqb key "length"), (inherited key); reflexivity.
Qed.

(** X12: [has] answers [true] for [length] and for the numeral of every
    index below the array's length, whatever the records are named,
    and its answer depends on the array only through its length. *)
Theorem has_property_keys (inherited : string -> bool) (m : Cookies) :
  has inherited "length" m = true
  /\ (forall i, i < List.length (cookies m) ->
                has inherited (index_key i) m = true)
  /\ (forall n m2, List.length (cookies m2) = List.length (cookies m) ->
                   has inherited n m2 = has inherited n m).
Proof.
  repeat split.
  - unfold has, in_array. simpl. now rewrite orb_true_r.
  - intros i Hi. unfold has, in_array.
    assert (E : existsb (fun j => String.eqb (index_key i) (index_key j))
                  (seq 0 (List.length (cookies m))) = true).
    { apply existsb_exists. exists i. split; [|apply String.eqb_refl].
      apply in_seq. lia. }
    now rewrite E.
  - intros n m2 E. unfold has. now rewrite E.
Qed.

(** X6: When [set] pushes a new record, a following [get] of the name
    answers a value only if the name is the numeral of the index at
    which the record was pushed; that value is the one just set when
    no earlier record has the name.  For every other name [get]
    answers [undefined]. *)
Theorem set_new_then_get (inherited : string -> bool)
        (Date_toString : Date -> string) (n v : string) (e : option Date)
        (p d : option string) (s : option bool) (m : Cookies) :
  has inherited n m = false ->
  let m' := snd (set inherited Date_toString n v e p d s m) in
  (n = index_key (List.length (cookies m)) ->
   exists v', get inherited n m' = Some v'
              /\ (Forall (fun x => name x <> n) (cookies m) -> v' = v))
  /\ (n <> index_key (List.length (cookies m)) -> get inherited n m' = None).
Proof.
  intros Hhas. unfold set. rewrite Hhas. cbn [snd].
  unfold get, has. cbn [cookies]. rewrite length_app. cbn [List.length].
  rewrite Nat.add_1_r, in_array_succ. unfold has in Hhas. rewrite Hhas.
  cbn [orb]. split.
  - intros Hn. rewrite <- Hn, String.eqb_refl.
    destruct (find_named n (cookies m)) as [c|] eqn:F.
    + destruct (find_named_split n (cookies m) c F)
        as (before & after & Hcs & Hb & Hc & _).
      exists (value c). split.
      * rewrite Hcs, <- app_assoc. simpl. unfold find_named.
        clear Hcs. induction Hb as [|x before Hx _ IH]; simpl.
        -- apply String.eqb_eq in Hc. now rewrite Hc.
        -- apply String.eqb_neq in Hx. now rewrite Hx.
      * intros Habs. rewrite (find_named_absent n _ Habs) in F. discriminate.
    + exists v. split; [|reflexivity].
      rewrite (find_named_app_absent n (cookies m) _ F). simpl.
      now rewrite String.eqb_refl.
  - intros Hn. apply String.eqb_neq in Hn. now rewrite Hn.
Qed.

(** X5: A [set] that overwrites touches one record only: the array is the
    old one with the first record of that name replaced at its place;
    the records before it, none of which has the name, and after it
    are the same. *)
Theorem set_frame (inherited : string -> bool)
        (Date_toString : Date -> string) (n v : string) (e : option Date)
        (p d : option string) (s : option bool) (m : Cookies) (c : Cookie) :
  has inherited n m = true ->
  find_named n (cookies m) = Some c ->
  exists before after c',
    cookies m = (before ++ c :: after)%list
    /\ cookies (snd (set inherited Date_toString n v e p d s m))
       = (before ++ c' :: after)%list
    /\ Forall (fun x => name x <> n) before
    /\ name c' = name c.
Proof.
  intros Hhas Hfind. unfold set. rewrite Hhas, Hfind. simpl.
  destruct (find_named_split n (cookies m) c Hfind)
    as (before & after & Hcs & Hb & _ & Hupd).
  exists before, after, (assign v e p d s c). rewrite Hupd.
  now repeat split.
Qed.

Lemma step_keys (inherited : string -> bool) (Date_toString : Date -> string)
      (m : Cookies) (c : call) :
  exists extra, keys (step inherited Date_toString m c) = (keys m ++ extra)%list.
Proof.
  unfold keys.
  destruct c as [n v e p d s | n | ]; simpl.
  - unfold set. destruct (has inherited n m).
    + exists []. rewrite app_nil_r.
      destruct (find_named n (cookies m)); simpl; [|reflexivity].
      now apply update_named_names.
    + exists [n]. simpl. now rewrite map_app.
  - exists []. rewrite app_nil_r. unfold remove.
    destruct (has inherited n m); [|reflexivity].
    destruct (find_named n (cookies m)); simpl; [|reflexivity].
    now apply update_named_names.
  - exists []. rewrite app_nil_r. unfold clear.
    destruct (0 <? List.length (cookies m))%nat; simpl; [|reflexivity].
    now rewrite map_map.
Qed.

(** X14: Whatever calls follow, [keys()] keeps the names it listed, in the
    same order and at the same places: no call renames, removes or
    reorders a record. *)
Theorem run_keys_prefix (inherited : string -> bool)
        (Date_toString : Date -> string) (calls : list call) (m : Cookies) :
  exists extra,
    keys (run inherited Date_toString calls m) = (keys m ++ extra)%list.
Proof.
  revert m. induction calls as [|c calls IH]; intros m.
  - exists []. now rewrite app_nil_r.
  - change (run inherited Date_toString (c :: calls) m)
      with (run inherited Date_toString calls (step inherited Date_toString m c)).
    destruct (step_keys inherited Date_toString m c) as (extra1 & E1).
    destruct (IH (step inherited Date_toString m c)) as (extra2 & E2).
    exists (extra1 ++ extra2)%list. now rewrite E2, E1, app_assoc.
Qed.

(** * Instances of the further properties *)

(** [set('length', 'x')] on the manager that holds the record [a]. *)
Lemma set_unstored_key_is_noop_witness :
  set es2023_inherited utc_Date_toString "length" "x" None None None None manager_a
  = (true, manager_a).
Proof.
  apply set_unstored_key_is_noop; [reflexivity|].
  constructor; [discriminate | constructor].
Defined.

(** [set('0', 'z')] on the manager that holds the records [0] and [b]. *)
Lemma set_overwrites_witness :
  get es2023_inherited "0"
    (snd (set es2023_inherited utc_Date_toString "0" "z" None None None None
            manager_0b))
  = Some "z".
Proof.
  destruct (set_overwrites es2023_inherited utc_Date_toString "0" "z"
              None None None None manager_0b (plain "0" "x") eq_refl eq_refl)
    as (_ & _ & _ & H & _).
  exact H.
Defined.

(** [set('b', '2')] on the manager that holds the record [a]. *)
Lemma set_appends_witness :
  keys (snd (set es2023_inherited utc_Date_toString "b" "2" None None None None
               manager_a))
  = ["a"; "b"].
Proof.
  destruct (set_appends es2023_inherited utc_Date_toString "b" "2"
              None None None None manager_a eq_refl)
    as (_ & H & _).
  exact H.
Defined.

(** [set('a', '1')] and [set('a', '2')] on the manager of an empty page. *)
Lemma set_twice_duplicates_witness :
  cookies
    (snd (set es2023_inherited utc_Date_toString "a" "2" None None None None
            (snd (set es2023_inherited utc_Date_toString "a" "1"
                    None None None None empty_manager))))
  = [plain "a" "1"; plain "a" "2"].
Proof.
  destruct (set_twice_duplicates es2023_inherited utc_Date_toString "a" "1" "2"
              empty_manager eq_refl)
    as (_ & _ & H & _).
  exact H.
Defined.

(** [remove('0')] on the manager that holds the records [0] and [b]. *)
Lemma remove_then_get_empty_witness :
  get es2023_inherited "0"
    (snd (remove es2023_inherited utc_Date_toString "0" manager_0b))
  = Some "".
Proof.
  destruct (remove_then_get_empty es2023_inherited utc_Date_toString "0"
              manager_0b (plain "0" "x") eq_refl eq_refl)
    as (_ & _ & _ & H).
  exact H.
Defined.

Lemma remove_writes_epoch_witness :
  written (snd (remove es2023_inherited utc_Date_toString "0" manager_0b))
  = (written manager_0b
     ++ [("0" ++ "=; expires=" ++ utc_Date_toString epoch
          ++ path_segment (plain "0" "x") ++ domain_segment (plain "0" "x")
          ++ secure_segment (plain "0" "x"))%string])%list.
Proof.
  apply (remove_writes_epoch es2023_inherited utc_Date_toString "0"
           manager_0b (plain "0" "x")); reflexivity.
Defined.

(** [set('0', 'x')] on the manager of an empty page: the name is the
    numeral of the index at which the record is pushed. *)
Lemma set_new_then_get_witness :
  exists v',
    get es2023_inherited "0"
      (snd (set es2023_inherited utc_Date_toString "0" "x" None None None None
              empty_manager))
    = Some v'
    /\ (Forall (fun x => name x <> "0") (cookies empty_manager) -> v' = "x").
Proof.
  destruct (set_new_then_get es2023_inherited utc_Date_toString "0" "x"
              None None None None empty_manager eq_refl)
    as (H & _).
  apply H. reflexivity.
Defined.

Lemma set_frame_witness :
  exists before after c',
    cookies manager_0b = (before ++ plain "0" "x" :: after)%list
    /\ cookies (snd (set es2023_inherited utc_Date_toString "0" "z"
                       None None None None manager_0b))
       = (before ++ c' :: after)%list
    /\ Forall (fun x => name x <> "0") before
    /\ name c' = name (plain "0" "x").
Proof.
  apply (set_frame es2023_inherited utc_Date_toString "0" "z"
           None None None None manager_0b (plain "0" "x")); reflexivity.
Defined.

(** The bare token of the secure attribute, with blanks around it. *)
Lemma part_without_equals_witness :
  part_key " secure " = trim " secure " /\ part_value " secure " = "".
Proof.
  apply part_without_equals. reflexivity.
Defined.

(** A part with two equals signs. *)
Lemma part_with_equals_witness :
  part_key (" a" ++ "=" ++ "1 " ++ "=" ++ "x") = trim " a"
  /\ part_value (" a" ++ "=" ++ "1 " ++ "=" ++ "x") = trim "1 ".
Proof.
  destruct (part_with_equals " a" "1 " eq_refl eq_refl) as (_ & _ & H).
  apply H.
Defined.

Lemma parse_path_accepts_witness :
  path (snd (parse_part ([], new_Cookie) "path=/a/b")) = Some "/a/b".
Proof.
  destruct (parse_path_accepts [] new_Cookie "path=/a/b" eq_refl)
    as (_ & _ & H).
  apply H. exists "a/b". split; reflexivity.
Defined.

Lemma parse_expires_needs_punctuation_witness :
  DateOfString "!!!, 09 Jun 2021 10:18:14 GMT"
  = DateOfString (part_value "expires=!!!, 09 Jun 2021 10:18:14 GMT").
Proof.
  apply (parse_expires_needs_punctuation [] new_Cookie
           "expires=!!!, 09 Jun 2021 10:18:14 GMT"
           (DateOfString "!!!, 09 Jun 2021 10:18:14 GMT")).
  - reflexivity.
  - vm_compute. reflexivity.
Defined.
